(** * luxfi/vms, components/chain: the block lifecycle cache

    A shallow embedding of [components/chain/block.go]: the [BlockWrapper]
    methods [Verify], [VerifyWithContext], [ShouldVerifyWithContext],
    [Accept] and [Reject], which drive the three block caches and the tip
    pointer of the shared [State].

    The wrapped [block.Block] is an interface value whose methods are
    opaque VM code; they are embedded as functions on an abstract VM world.
    The wrapper's own [State] is threaded next to that world, so a method
    of the wrapper is a state transformer on the pair. *)

From stdpp Require Import base option list gmap strings.

Set Default Proof Using "Type".

(** ** External types

    Types declared outside the package: [ids.ID], [context.Context],
    [block.Context], Go's [error] values, and the state of the VM that the
    wrapped block's methods read and write. *)
Class Externals := {
  ids_ID : Type;
  ids_ID_eq_dec :: EqDecision ids_ID;
  ids_ID_countable :: Countable ids_ID;
  context_Context : Type;
  block_Context : Type;
  error : Type;
  World : Type;
}.

(** ** Package [block] of the consensus engine: the consumed interfaces *)
Module block.
Section Interfaces.
Context `{Externals}.

(** A Go [error] result: [None] is [nil]. *)
Definition result : Type := option error.

(** [block.WithVerifyContext]: the optional capability. *)
Record WithVerifyContext := {
  ShouldVerifyWithContext : context_Context → World → (bool * result) * World;
  VerifyWithContext : context_Context → block_Context → World → result * World;
}.

(** [block.Block]: identifier and the three verbs. The identifier is
    immutable, so [ID] is a field. The dynamic type test
    [b.(block.WithVerifyContext)] is the field [asWithVerifyContext]:
    [Some] when the assertion succeeds. *)
Record Block := {
  ID : ids_ID;
  Verify : context_Context → World → result * World;
  Accept : context_Context → World → result * World;
  Reject : context_Context → World → result * World;
  asWithVerifyContext : option WithVerifyContext;
}.
End Interfaces.
End block.

(** ** Package [cache]: the bounded caches behind [State] *)
Module cache.

(** Modelled from the spec: the [Cacher] interface behind
    [unverifiedBlocks] and [decidedBlocks] is declared outside the given
    sources. Section 4.1 gives its contract: [Get] returns the value and
    whether it was found, [Put] inserts or overwrites and may evict other
    entries, [Evict] removes an entry and leaves the others alone. [Get]
    returns the cache as well, since a lookup may refresh recency. *)
Class Cacher (K V C : Type) := {
  Put : K → V → C → C;
  Get : K → C → option V * C;
  Evict : K → C → C;
  Get_Put_eq : ∀ k v c, (Get k (Put k v c)).1 = Some v;
  Get_Put_ne : ∀ k k' v c, k ≠ k' →
    (Get k' (Put k v c)).1 = (Get k' c).1 ∨ (Get k' (Put k v c)).1 = None;
  Get_Evict_eq : ∀ k c, (Get k (Evict k c)).1 = None;
  Get_Evict_ne : ∀ k k' c, k ≠ k' → (Get k' (Evict k c)).1 = (Get k' c).1;
  Get_Get : ∀ k k' c, (Get k' (Get k c).2).1 = (Get k' c).1;
}.

(** What [Get] finds, without the refreshed cache. *)
Definition found `{Cacher K V C} (k : K) (c : C) : option V := (Get k c).1.

(** Modelled from the spec: a least-recently-used cache, the eviction
    policy section 3 names. Entries live in a map, [order] lists the keys
    from least to most recently used, and [Size] is the capacity (a cache
    always has room for the entry being put). *)
Record LRU (K V : Type) `{Countable K} := {
  Size : nat;
  entries : gmap K V;
  order : list K;
}.
Arguments Size {K V _ _} _.
Arguments entries {K V _ _} _.
Arguments order {K V _ _} _.

Section LRU.
Context {K V : Type} `{Countable K}.

Definition lru_new (size : nat) : LRU K V :=
  {| Size := size; entries := ∅; order := [] |}.

Definition touch (k : K) (ks : list K) : list K :=
  filter (λ k', k' ≠ k) ks ++ [k].

Definition lru_Get (k : K) (c : LRU K V) : option V * LRU K V :=
  match entries c !! k with
  | Some v =>
      (Some v, {| Size := Size c; entries := entries c; order := touch k (order c) |})
  | None => (None, c)
  end.

Definition lru_Put (k : K) (v : V) (c : LRU K V) : LRU K V :=
  let m := <[k := v]> (entries c) in
  if decide (Nat.max 1 (Size c) < size m) then
    match filter (λ k', k' ≠ k) (order c) with
    | oldest :: rest =>
        {| Size := Size c; entries := delete oldest m; order := rest ++ [k] |}
    | [] => {| Size := Size c; entries := m; order := [k] |}
    end
  else {| Size := Size c; entries := m; order := touch k (order c) |}.

Definition lru_Evict (k : K) (c : LRU K V) : LRU K V :=
  {| Size := Size c;
     entries := delete k (entries c);
     order := filter (λ k', k' ≠ k) (order c) |}.

(** The entry [lru_Put] evicts, if any, is never the one being put. *)
Local Ltac lru_put_cases k c :=
  unfold lru_Put; simpl; case_decide; simpl;
  [ destruct (filter (λ k', k' ≠ k) (order c)) as [|oldest rest] eqn:Hf; simpl;
    [ | assert (oldest ≠ k)
          by (assert (oldest ∈ filter (λ k', k' ≠ k) (order c)) as Hin
                by (rewrite Hf; left);
              by apply list_elem_of_filter in Hin as [? _]) ]
  | ].

#[global] Program Instance lru_Cacher : Cacher K V (LRU K V) :=
  {| Put := lru_Put; Get := lru_Get; Evict := lru_Evict |}.
Next Obligation.
  intros k v c. unfold lru_Get.
  replace (entries (lru_Put k v c) !! k) with (Some v); [done|].
  lru_put_cases k c; by simplify_map_eq.
Qed.
Next Obligation.
  intros k k' v c Hne.
  assert (∀ d : LRU K V, (lru_Get k' d).1 = entries d !! k') as Hget
    by (intros d; unfold lru_Get; by destruct (entries d !! k')).
  rewrite !Hget. lru_put_cases k c; try (left; by simplify_map_eq).
  destruct (decide (oldest = k')); [right | left]; by simplify_map_eq.
Qed.
Next Obligation.
  intros k c. unfold lru_Get, lru_Evict. simpl. by rewrite lookup_delete_eq.
Qed.
Next Obligation.
  intros k k' c Hne. unfold lru_Get, lru_Evict. simpl.
  rewrite lookup_delete_ne; [|done]. by destruct (entries c !! k').
Qed.
Next Obligation.
  intros k k' c. unfold lru_Get.
  destruct (entries c !! k); simpl; by destruct (entries c !! k').
Qed.
End LRU.
End cache.

(** ** Package [chain]: [BlockWrapper] and the state it drives *)
Section chain.
Context `{Externals}.

(** [BlockWrapper] embeds the wrapped [block.Block]. Its other field, the
    pointer [state], refers to the one [State] all wrappers of a run share;
    that [State] is threaded through the methods below. *)
Record BlockWrapper := {
  Block : block.Block;
}.

(** [bw.ID()] is promoted from the embedded block. *)
Definition ID (bw : BlockWrapper) : ids_ID := block.ID (Block bw).

Context {C : Type} `{!cache.Cacher ids_ID BlockWrapper C}.

(** Modelled from the spec: the declaration of [State] is outside the given
    sources. Section 3 lists its fields, and [block.go] uses
    [unverifiedBlocks] and [decidedBlocks] through [Evict] and [Put],
    [verifiedBlocks] as a Go map, and [lastAcceptedBlock] as a pointer to a
    wrapper ([None] is the nil pointer). *)
Record State := {
  unverifiedBlocks : C;
  verifiedBlocks : gmap ids_ID BlockWrapper;
  decidedBlocks : C;
  lastAcceptedBlock : option BlockWrapper;
}.

Definition set_unverifiedBlocks (f : C → C) (st : State) : State :=
  {| unverifiedBlocks := f (unverifiedBlocks st);
     verifiedBlocks := verifiedBlocks st;
     decidedBlocks := decidedBlocks st;
     lastAcceptedBlock := lastAcceptedBlock st |}.

Definition set_verifiedBlocks
    (f : gmap ids_ID BlockWrapper → gmap ids_ID BlockWrapper) (st : State) : State :=
  {| unverifiedBlocks := unverifiedBlocks st;
     verifiedBlocks := f (verifiedBlocks st);
     decidedBlocks := decidedBlocks st;
     lastAcceptedBlock := lastAcceptedBlock st |}.

Definition set_decidedBlocks (f : C → C) (st : State) : State :=
  {| unverifiedBlocks := unverifiedBlocks st;
     verifiedBlocks := verifiedBlocks st;
     decidedBlocks := f (decidedBlocks st);
     lastAcceptedBlock := lastAcceptedBlock st |}.

Definition set_lastAcceptedBlock (bw : BlockWrapper) (st : State) : State :=
  {| unverifiedBlocks := unverifiedBlocks st;
     verifiedBlocks := verifiedBlocks st;
     decidedBlocks := decidedBlocks st;
     lastAcceptedBlock := Some bw |}.

(** *** The monad of wrapper methods

    A method runs on the shared [State] and the VM world. [call] is a
    delegated call into the wrapped block, which sees the world only;
    [update] is a write to a field of [State]. *)
Definition Sigma : Type := State * World.

Definition M (A : Type) : Type := Sigma → A * Sigma.

#[local] Instance M_ret : MRet M := λ A a σ, (a, σ).

#[local] Instance M_bind : MBind M :=
  λ A B k m σ, let '(a, σ') := m σ in k a σ'.

Definition call {A : Type} (f : World → A * World) : M A :=
  λ σ, let '(a, w) := f σ.2 in (a, (σ.1, w)).

Definition update (f : State → State) : M unit :=
  λ σ, ((), (f σ.1, σ.2)).

(** *** The methods of [BlockWrapper] *)

Definition Verify (bw : BlockWrapper) (ctx : context_Context) : M block.result :=
  err ← call (block.Verify (Block bw) ctx);
  match err with
  | Some e => mret (Some e)
  | None =>
      let blkID := ID bw in
      update (set_unverifiedBlocks (cache.Evict blkID));;
      update (set_verifiedBlocks (insert blkID bw));;
      mret None
  end.

Definition VerifyWithContext (bw : BlockWrapper) (ctx : context_Context)
    (blockCtx : block_Context) : M block.result :=
  match block.asWithVerifyContext (Block bw) with
  | Some withCtx =>
      r ← call (block.ShouldVerifyWithContext withCtx ctx);
      match r with
      | (_, Some e) => mret (Some e)
      | (true, None) => call (block.VerifyWithContext withCtx ctx blockCtx)
      | (false, None) => Verify bw ctx
      end
  | None => Verify bw ctx
  end.

Definition ShouldVerifyWithContext (bw : BlockWrapper) (ctx : context_Context)
    : M (bool * block.result) :=
  match block.asWithVerifyContext (Block bw) with
  | None => mret (false, None)
  | Some blkWithCtx => call (block.ShouldVerifyWithContext blkWithCtx ctx)
  end.

Definition Accept (bw : BlockWrapper) (ctx : context_Context) : M block.result :=
  let blkID := ID bw in
  update (set_verifiedBlocks (delete blkID));;
  update (set_decidedBlocks (cache.Put blkID bw));;
  update (set_lastAcceptedBlock bw);;
  call (block.Accept (Block bw) ctx).

Definition Reject (bw : BlockWrapper) (ctx : context_Context) : M block.result :=
  let blkID := ID bw in
  update (set_verifiedBlocks (delete blkID));;
  update (set_decidedBlocks (cache.Put blkID bw));;
  call (block.Reject (Block bw) ctx).

(** The cache writes [Accept] and [Reject] make before they delegate. *)
Definition acceptBookkeeping (bw : BlockWrapper) : M unit :=
  update (set_verifiedBlocks (delete (ID bw)));;
  update (set_decidedBlocks (cache.Put (ID bw) bw));;
  update (set_lastAcceptedBlock bw).

Definition rejectBookkeeping (bw : BlockWrapper) : M unit :=
  update (set_verifiedBlocks (delete (ID bw)));;
  update (set_decidedBlocks (cache.Put (ID bw) bw)).

(** *** Sequences of calls

    [Op] is a call the consensus engine makes to decide a block's fate;
    [Method] is any method of the wrapper. *)
Inductive Op :=
  | OpVerify (bw : BlockWrapper) (ctx : context_Context)
  | OpAccept (bw : BlockWrapper) (ctx : context_Context)
  | OpReject (bw : BlockWrapper) (ctx : context_Context).

Inductive Method :=
  | Lifecycle (op : Op)
  | MVerifyWithContext (bw : BlockWrapper) (ctx : context_Context)
      (blockCtx : block_Context)
  | MShouldVerifyWithContext (bw : BlockWrapper) (ctx : context_Context).

Definition exec (op : Op) (σ : Sigma) : Sigma :=
  match op with
  | OpVerify bw ctx => (Verify bw ctx σ).2
  | OpAccept bw ctx => (Accept bw ctx σ).2
  | OpReject bw ctx => (Reject bw ctx σ).2
  end.

Definition invoke (m : Method) (σ : Sigma) : Sigma :=
  match m with
  | Lifecycle op => exec op σ
  | MVerifyWithContext bw ctx blockCtx => (VerifyWithContext bw ctx blockCtx σ).2
  | MShouldVerifyWithContext bw ctx => (ShouldVerifyWithContext bw ctx σ).2
  end.

(** Every state a sequence of calls goes through, the first one included. *)
Fixpoint trace (ops : list Op) (σ : Sigma) : list Sigma :=
  match ops with
  | [] => [σ]
  | op :: ops' => σ :: trace ops' (exec op σ)
  end.

Definition run (ops : list Op) (σ : Sigma) : Sigma := foldl (flip exec) σ ops.

Definition invokeAll (ms : list Method) (σ : Sigma) : Sigma :=
  foldl (flip invoke) σ ms.

(** *** Cache membership and invariant I1 *)
Definition inUnverified (id : ids_ID) (st : State) : Prop :=
  is_Some (cache.found id (unverifiedBlocks st)).

Definition inVerified (id : ids_ID) (st : State) : Prop :=
  is_Some (verifiedBlocks st !! id).

Definition inDecided (id : ids_ID) (st : State) : Prop :=
  is_Some (cache.found id (decidedBlocks st)).

(** [id] is in at most one of the three caches. *)
Definition atMostOne (id : ids_ID) (st : State) : Prop :=
  ¬ (inUnverified id st ∧ inVerified id st) ∧
  ¬ (inUnverified id st ∧ inDecided id st) ∧
  ¬ (inVerified id st ∧ inDecided id st).

Definition I1 (st : State) : Prop := ∀ id, atMostOne id st.

(** The order of calls the engine keeps to (section 5): a block is verified
    before it is decided and decided at most once. On the caches: [Verify]
    is not called on an identifier that sits in [decidedBlocks], and
    [Accept] and [Reject] are not called on one that still sits in
    [unverifiedBlocks]. *)
Definition engineAllows (op : Op) (st : State) : Prop :=
  match op with
  | OpVerify bw _ => cache.found (ID bw) (decidedBlocks st) = None
  | OpAccept bw _ | OpReject bw _ => cache.found (ID bw) (unverifiedBlocks st) = None
  end.

Fixpoint followsEngine (ops : list Op) (σ : Sigma) : Prop :=
  match ops with
  | [] => True
  | op :: ops' => engineAllows op σ.1 ∧ followsEngine ops' (exec op σ)
  end.

End chain.

Arguments BlockWrapper {_}.
Arguments State {_} C.
Arguments Sigma {_} C.
Arguments Op {_}.
Arguments Method {_}.

(** ** Observations on calls and states *)
Section chain_observations.
Context `{Externals} {C : Type} `{!cache.Cacher ids_ID BlockWrapper C}.

(** The wrapper a method is called on. *)
Definition receiver (m : Method) : BlockWrapper :=
  match m with
  | Lifecycle (OpVerify bw _) | Lifecycle (OpAccept bw _)
  | Lifecycle (OpReject bw _) => bw
  | MVerifyWithContext bw _ _ | MShouldVerifyWithContext bw _ => bw
  end.

(** The wrapper of the last [Accept] in a sequence of calls, if any. *)
Fixpoint lastAccept (ms : list Method) : option BlockWrapper :=
  match ms with
  | [] => None
  | m :: ms' =>
      match lastAccept ms', m with
      | Some bw, _ => Some bw
      | None, Lifecycle (OpAccept bw _) => Some bw
      | None, _ => None
      end
  end.

(** The state [Verify] leaves on success, and the caches [Accept] and
    [Reject] leave. *)
Definition verifiedState (bw : BlockWrapper) (st : State C) : State C :=
  set_verifiedBlocks (insert (ID bw) bw)
    (set_unverifiedBlocks (cache.Evict (ID bw)) st).

Definition decidedState (bw : BlockWrapper) (st : State C) : State C :=
  set_decidedBlocks (cache.Put (ID bw) bw)
    (set_verifiedBlocks (delete (ID bw)) st).

(** Every cached wrapper is stored under its own identifier. *)
Definition wellKeyed (st : State C) : Prop :=
  ∀ id h,
    cache.found id (unverifiedBlocks st) = Some h ∨
    verifiedBlocks st !! id = Some h ∨
    cache.found id (decidedBlocks st) = Some h →
    ID h = id.

(** No identifier is both unverified and verified. *)
Definition separated (st : State C) : Prop :=
  ∀ id, ¬ (inUnverified id st ∧ inVerified id st).

End chain_observations.

(** ** A concrete instance, on which the methods evaluate

    Identifiers are numbers, errors are messages, and the VM world counts
    the delegated calls made so far. Both caches are LRU caches. *)
Module demo.

#[export] Instance externals : Externals := {|
  ids_ID := N;
  context_Context := unit;
  block_Context := unit;
  error := string;
  World := nat;
|}.

Abbreviation Cache := (cache.LRU N BlockWrapper).

(** A method of a block that returns [r] and counts the call. *)
Definition returns {A : Type} (r : A) : nat → A * nat := λ w, (r, S w).

(** A block without the [WithVerifyContext] capability. *)
Definition plain (id : N) (verify accept reject : option string) : BlockWrapper :=
  {| Block := {|
       block.ID := id;
       block.Verify := λ _, returns verify;
       block.Accept := λ _, returns accept;
       block.Reject := λ _, returns reject;
       block.asWithVerifyContext := None |} |}.

(** A block with the capability: [should] is what its probe answers. *)
Definition contextual (id : N) (should : bool) (verifyWithContext : option string)
    : BlockWrapper :=
  {| Block := {|
       block.ID := id;
       block.Verify := λ _, returns None;
       block.Accept := λ _, returns None;
       block.Reject := λ _, returns None;
       block.asWithVerifyContext := Some {|
         block.ShouldVerifyWithContext := λ _, returns (should, None);
         block.VerifyWithContext := λ _ _, returns verifyWithContext |} |} |}.

(** Four blocks with identifier 7: one that passes every call, one whose
    [Verify] fails, one whose [Accept] and [Reject] fail, and one that
    asks for, and passes, verification with a context. *)
Definition valid : BlockWrapper := plain 7 None None None.

Definition invalid : BlockWrapper := plain 7 (Some "invalid block") None None.

Definition undecidable : BlockWrapper :=
  plain 7 None (Some "disk full") (Some "disk full").

Definition withContext : BlockWrapper := contextual 7 true None.

(** No block cached, no block accepted yet; both caches hold two entries. *)
Definition fresh : State Cache :=
  {| unverifiedBlocks := cache.lru_new 2;
     verifiedBlocks := ∅;
     decidedBlocks := cache.lru_new 2;
     lastAcceptedBlock := None |}.

(** [fresh] after the VM parsed [bw]: the wrapper waits in
    [unverifiedBlocks]. *)
Definition parsed (bw : BlockWrapper) : State Cache :=
  set_unverifiedBlocks (cache.Put (ID bw) bw) fresh.

(** More blocks: one with another identifier, one whose probe declines the
    context, one whose probe fails, and one whose verification with a
    context fails. *)
Definition other : BlockWrapper := plain 9 None None None.

Definition declining : BlockWrapper := contextual 7 false None.

Definition brokenProbe : BlockWrapper :=
  {| Block := {|
       block.ID := 7%N;
       block.Verify := λ _, returns None;
       block.Accept := λ _, returns None;
       block.Reject := λ _, returns None;
       block.asWithVerifyContext := Some {|
         block.ShouldVerifyWithContext := λ _, returns (true, Some "no context");
         block.VerifyWithContext := λ _ _, returns None |} |} |}.

Definition failsWithContext : BlockWrapper :=
  contextual 7 true (Some "bad context").

End demo.

(** * Properties of the wrapper methods *)
Section chain_facts.
Context `{Externals} {C : Type} `{!cache.Cacher ids_ID BlockWrapper C}.
Implicit Types (bw : BlockWrapper) (ctx : context_Context) (st : State C)
  (w : World) (σ : Sigma C) (id : ids_ID).

Local Ltac unfold_monad :=
  unfold mbind, M_bind, mret, M_ret, call, update; simpl.

(** ** The methods as equations on the state *)

Lemma Verify_unfold bw ctx st w :
  Verify bw ctx (st, w) =
  match block.Verify (Block bw) ctx w with
  | (Some e, w') => (Some e, (st, w'))
  | (None, w') =>
      (None,
       (set_verifiedBlocks (insert (ID bw) bw)
          (set_unverifiedBlocks (cache.Evict (ID bw)) st), w'))
  end.
Proof.
  unfold Verify. unfold_monad.
  by destruct (block.Verify (Block bw) ctx w) as [[e|] w'].
Qed.

Lemma acceptBookkeeping_unfold bw st w :
  acceptBookkeeping bw (st, w) =
  ((), (set_lastAcceptedBlock bw
          (set_decidedBlocks (cache.Put (ID bw) bw)
             (set_verifiedBlocks (delete (ID bw)) st)), w)).
Proof. reflexivity. Qed.

Lemma rejectBookkeeping_unfold bw st w :
  rejectBookkeeping bw (st, w) =
  ((), (set_decidedBlocks (cache.Put (ID bw) bw)
          (set_verifiedBlocks (delete (ID bw)) st), w)).
Proof. reflexivity. Qed.

Lemma Accept_unfold bw ctx σ :
  Accept bw ctx σ = call (block.Accept (Block bw) ctx) (acceptBookkeeping bw σ).2.
Proof. reflexivity. Qed.

Lemma Reject_unfold bw ctx σ :
  Reject bw ctx σ = call (block.Reject (Block bw) ctx) (rejectBookkeeping bw σ).2.
Proof. reflexivity. Qed.

(** A delegated call returns what the block returns and leaves [State]
    alone. *)
Lemma call_spec {A : Type} (f : World → A * World) st w :
  call f (st, w) = ((f w).1, (st, (f w).2)).
Proof. unfold call. simpl. by destruct (f w). Qed.

Lemma Accept_state bw ctx st w :
  (Accept bw ctx (st, w)).2.1 = (acceptBookkeeping bw (st, w)).2.1.
Proof.
  rewrite Accept_unfold, acceptBookkeeping_unfold. cbn [snd].
  by rewrite call_spec.
Qed.

Lemma Reject_state bw ctx st w :
  (Reject bw ctx (st, w)).2.1 = (rejectBookkeeping bw (st, w)).2.1.
Proof.
  rewrite Reject_unfold, rejectBookkeeping_unfold. cbn [snd].
  by rewrite call_spec.
Qed.

(** On the context-aware path [VerifyWithContext] returns what the block's
    [VerifyWithContext] returns and writes to no field of [State]. *)
Lemma VerifyWithContext_context_path bw ctx blockCtx withCtx st w w1 :
  block.asWithVerifyContext (Block bw) = Some withCtx →
  block.ShouldVerifyWithContext withCtx ctx w = ((true, None), w1) →
  VerifyWithContext bw ctx blockCtx (st, w) =
  ((block.VerifyWithContext withCtx ctx blockCtx w1).1,
   (st, (block.VerifyWithContext withCtx ctx blockCtx w1).2)).
Proof.
  intros Hcap Hshould. unfold VerifyWithContext. rewrite Hcap.
  unfold_monad. rewrite Hshould. simpl.
  by destruct (block.VerifyWithContext withCtx ctx blockCtx w1).
Qed.

(** ** Verify *)

(** C5: when the wrapped block's [Verify] returns an error, the wrapper's
    [Verify] returns that error and the whole [State] (the three caches and
    the tip pointer) is what it was. *)
Theorem Verify_error_keeps_state bw ctx st w e :
  (block.Verify (Block bw) ctx w).1 = Some e →
  Verify bw ctx (st, w) = (Some e, (st, (block.Verify (Block bw) ctx w).2)).
Proof.
  intros Herr. rewrite Verify_unfold.
  destruct (block.Verify (Block bw) ctx w) as [r w']. simpl in *. by subst r.
Qed.

(** C6: when the wrapped block's [Verify] succeeds, the wrapper's [Verify]
    returns nil, [Get] on [unverifiedBlocks] no longer finds the identifier,
    and [verifiedBlocks] maps the identifier to this wrapper. *)
Theorem Verify_success_moves_to_verified bw ctx st w :
  (block.Verify (Block bw) ctx w).1 = None →
  (Verify bw ctx (st, w)).1 = None ∧
  cache.found (ID bw) (unverifiedBlocks (Verify bw ctx (st, w)).2.1) = None ∧
  verifiedBlocks (Verify bw ctx (st, w)).2.1 !! ID bw = Some bw.
Proof.
  intros Hok. rewrite Verify_unfold.
  destruct (block.Verify (Block bw) ctx w) as [r w']. simpl in *. subst r.
  simpl. split_and!; [done | apply cache.Get_Evict_eq | apply lookup_insert_eq].
Qed.

(** ** ShouldVerifyWithContext *)

(** C9: on a block without the [WithVerifyContext] capability the probe
    returns [(false, nil)]; the caches, the tip pointer and the VM world
    are untouched. *)
Theorem ShouldVerifyWithContext_without_capability bw ctx σ :
  block.asWithVerifyContext (Block bw) = None →
  ShouldVerifyWithContext bw ctx σ = ((false, None), σ).
Proof. intros Hcap. unfold ShouldVerifyWithContext. by rewrite Hcap. Qed.

(** ** Accept and Reject *)

(** C4: [Accept] first deletes the identifier from [verifiedBlocks], puts
    the wrapper into [decidedBlocks] and points [lastAcceptedBlock] at it,
    all before any delegated call, and then calls the wrapped block's
    [Accept] on the state so prepared. Afterwards [verifiedBlocks] has no
    entry for the identifier, [decidedBlocks] finds it, and the identifier
    of [lastAcceptedBlock] is this one. *)
Theorem Accept_bookkeeping_then_delegate bw ctx st w :
  let prepared := (acceptBookkeeping bw (st, w)).2 in
  let st' := (Accept bw ctx (st, w)).2.1 in
  (prepared.2 = w ∧
   verifiedBlocks prepared.1 = delete (ID bw) (verifiedBlocks st) ∧
   decidedBlocks prepared.1 = cache.Put (ID bw) bw (decidedBlocks st) ∧
   lastAcceptedBlock prepared.1 = Some bw) ∧
  Accept bw ctx (st, w) =
    ((block.Accept (Block bw) ctx w).1,
     (prepared.1, (block.Accept (Block bw) ctx w).2)) ∧
  verifiedBlocks st' !! ID bw = None ∧
  cache.found (ID bw) (decidedBlocks st') = Some bw ∧
  ID <$> lastAcceptedBlock st' = Some (ID bw).
Proof.
  intros prepared st'. subst st'. rewrite Accept_state. fold prepared.
  subst prepared. rewrite Accept_unfold, acceptBookkeeping_unfold.
  cbn [snd]. rewrite call_spec. simpl. split_and!; try done.
  - apply lookup_delete_eq.
  - apply cache.Get_Put_eq.
Qed.

(** C7: [Reject] leaves [verifiedBlocks] and [decidedBlocks] exactly as
    [Accept] would have left them (the identifier deleted from the first
    and put into the second), and [lastAcceptedBlock] is what it was before
    the call. *)
Theorem Reject_like_Accept_but_tip bw ctx st w :
  let st' := (Reject bw ctx (st, w)).2.1 in
  verifiedBlocks st' = verifiedBlocks (Accept bw ctx (st, w)).2.1 ∧
  decidedBlocks st' = decidedBlocks (Accept bw ctx (st, w)).2.1 ∧
  verifiedBlocks st' !! ID bw = None ∧
  cache.found (ID bw) (decidedBlocks st') = Some bw ∧
  lastAcceptedBlock st' = lastAcceptedBlock st.
Proof.
  intros st'. subst st'.
  rewrite Reject_state, Accept_state, rejectBookkeeping_unfold,
    acceptBookkeeping_unfold. simpl.
  split_and!; try done.
  - apply lookup_delete_eq.
  - apply cache.Get_Put_eq.
Qed.

(** C3: when the wrapped block's [Accept] (or [Reject]) returns an error,
    the wrapper returns that error and the cache moves stay: the identifier
    has no entry in [verifiedBlocks], [decidedBlocks] finds it, and after
    [Accept] the tip pointer is this wrapper. *)
Theorem decide_error_no_rollback bw ctx st w e :
  ((block.Accept (Block bw) ctx w).1 = Some e →
   (Accept bw ctx (st, w)).1 = Some e ∧
   verifiedBlocks (Accept bw ctx (st, w)).2.1 !! ID bw = None ∧
   cache.found (ID bw) (decidedBlocks (Accept bw ctx (st, w)).2.1) = Some bw ∧
   lastAcceptedBlock (Accept bw ctx (st, w)).2.1 = Some bw) ∧
  ((block.Reject (Block bw) ctx w).1 = Some e →
   (Reject bw ctx (st, w)).1 = Some e ∧
   verifiedBlocks (Reject bw ctx (st, w)).2.1 !! ID bw = None ∧
   cache.found (ID bw) (decidedBlocks (Reject bw ctx (st, w)).2.1) = Some bw).
Proof.
  split; intros Herr.
  - rewrite Accept_unfold, acceptBookkeeping_unfold. cbn [snd].
    rewrite call_spec. simpl.
    split_and!; [done | apply lookup_delete_eq | apply cache.Get_Put_eq | done].
  - rewrite Reject_unfold, rejectBookkeeping_unfold. cbn [snd].
    rewrite call_spec. simpl.
    split_and!; [done | apply lookup_delete_eq | apply cache.Get_Put_eq].
Qed.

(** C10: [Accept] and [Reject] leave [unverifiedBlocks] as it is. So an
    identifier found in [unverifiedBlocks] when either is called (a block
    decided without a successful [Verify]) is still found there afterwards,
    and is found in [decidedBlocks] as well. *)
Theorem decide_keeps_unverified bw ctx st w :
  (unverifiedBlocks (Accept bw ctx (st, w)).2.1 = unverifiedBlocks st ∧
   unverifiedBlocks (Reject bw ctx (st, w)).2.1 = unverifiedBlocks st) ∧
  (inUnverified (ID bw) st →
   (inUnverified (ID bw) (Accept bw ctx (st, w)).2.1 ∧
    inDecided (ID bw) (Accept bw ctx (st, w)).2.1) ∧
   (inUnverified (ID bw) (Reject bw ctx (st, w)).2.1 ∧
    inDecided (ID bw) (Reject bw ctx (st, w)).2.1)).
Proof.
  rewrite Accept_state, Reject_state, acceptBookkeeping_unfold,
    rejectBookkeeping_unfold.
  unfold inUnverified, inDecided. simpl.
  split; [done|]. intros Hin.
  unfold cache.found. rewrite cache.Get_Put_eq. eauto.
Qed.

(** ** Sequences of calls *)

Lemma Verify_inserts bw ctx st w id h :
  verifiedBlocks (Verify bw ctx (st, w)).2.1 !! id = Some h →
  verifiedBlocks st !! id ≠ Some h →
  id = ID bw ∧ h = bw ∧
  block.Verify (Block bw) ctx w = (None, (Verify bw ctx (st, w)).2.2).
Proof.
  rewrite Verify_unfold.
  destruct (block.Verify (Block bw) ctx w) as [[e|] w']; simpl; [done|].
  intros Hnew Hold. destruct (decide (id = ID bw)) as [-> | Hne].
  - rewrite lookup_insert_eq in Hnew. by simplify_eq.
  - by rewrite lookup_insert_ne in Hnew.
Qed.

Lemma decide_never_inserts bw st id h :
  delete (ID bw) (verifiedBlocks st) !! id = Some h →
  verifiedBlocks st !! id = Some h.
Proof. intros Hnew. by apply lookup_delete_Some in Hnew as [_ ?]. Qed.

(** C8: at any point of any sequence of wrapper methods, if a call leaves
    [verifiedBlocks] with an entry it did not have before, then the call is
    [Verify] (directly, or as the fall-back of [VerifyWithContext]) on the
    wrapper now stored under its own identifier, and the last thing that
    happened in the VM is the wrapped block's [Verify] returning nil. No
    other method adds an entry. *)
Theorem verified_only_after_Verify (ms : list Method) (m : Method) σ0 id h :
  let σ := invokeAll ms σ0 in
  let σ' := invoke m σ in
  verifiedBlocks σ'.1 !! id = Some h →
  verifiedBlocks σ.1 !! id ≠ Some h →
  ∃ bw ctx,
    (m = Lifecycle (OpVerify bw ctx) ∨
     ∃ blockCtx, m = MVerifyWithContext bw ctx blockCtx) ∧
    id = ID bw ∧ h = bw ∧
    ∃ w0, block.Verify (Block bw) ctx w0 = (None, σ'.2).
Proof.
  intros σ σ'. subst σ'. destruct σ as [st w]. clear ms σ0.
  destruct m as [[bw ctx | bw ctx | bw ctx] | bw ctx blockCtx | bw ctx];
    cbn [invoke exec fst snd]; intros Hnew Hold.
  - destruct (Verify_inserts _ _ _ _ _ _ Hnew Hold) as (-> & -> & Hv). eauto 10.
  - rewrite Accept_state, acceptBookkeeping_unfold in Hnew. simpl in Hnew.
    by apply decide_never_inserts in Hnew.
  - rewrite Reject_state, rejectBookkeeping_unfold in Hnew. simpl in Hnew.
    by apply decide_never_inserts in Hnew.
  - revert Hnew. unfold VerifyWithContext.
    destruct (block.asWithVerifyContext (Block bw)) as [withCtx|].
    + unfold_monad.
      destruct (block.ShouldVerifyWithContext withCtx ctx w)
        as [[[] [e|]] w1]; simpl; try done.
      * by destruct (block.VerifyWithContext withCtx ctx blockCtx w1).
      * intros Hnew.
        destruct (Verify_inserts _ _ _ _ _ _ Hnew Hold) as (-> & -> & Hv).
        eauto 10.
    + intros Hnew.
      destruct (Verify_inserts _ _ _ _ _ _ Hnew Hold) as (-> & -> & Hv).
      eauto 10.
  - revert Hnew. unfold ShouldVerifyWithContext.
    destruct (block.asWithVerifyContext (Block bw)) as [withCtx|]; [|done].
    rewrite call_spec. by simpl.
Qed.

(** Membership can only shrink: a state whose caches hold no more of [id]
    than a state with at most one copy has at most one copy too. *)
Lemma atMostOne_mono id st st' :
  (inUnverified id st' → inUnverified id st) →
  (inVerified id st' → inVerified id st) →
  (inDecided id st' → inDecided id st) →
  atMostOne id st → atMostOne id st'.
Proof. unfold atMostOne. tauto. Qed.

Lemma inDecided_Put_other k bw id st :
  k ≠ id →
  inDecided id (set_decidedBlocks (cache.Put k bw) st) → inDecided id st.
Proof.
  unfold inDecided, cache.found. simpl. intros Hne.
  destruct (cache.Get_Put_ne k id bw (decidedBlocks st) Hne) as [-> | ->];
    [done | by intros [? ?]].
Qed.

Lemma I1_Verify bw ctx st w :
  cache.found (ID bw) (decidedBlocks st) = None →
  I1 st → I1 (Verify bw ctx (st, w)).2.1.
Proof.
  intros Hfresh Hinv. rewrite Verify_unfold.
  destruct (block.Verify (Block bw) ctx w) as [[e|] w']; simpl; [done|].
  intros id. destruct (decide (id = ID bw)) as [-> | Hne].
  - unfold atMostOne, inUnverified, inDecided, cache.found. simpl.
    rewrite cache.Get_Evict_eq. fold (cache.found (ID bw) (decidedBlocks st)).
    rewrite Hfresh. split_and!; by intros [[? ?] [? ?]].
  - apply (atMostOne_mono id st); [..|done];
      unfold inUnverified, inVerified, inDecided, cache.found; simpl.
    + by rewrite cache.Get_Evict_ne.
    + by rewrite lookup_insert_ne.
    + done.
Qed.

Lemma I1_decided bw st f :
  cache.found (ID bw) (unverifiedBlocks st) = None →
  (∀ st0, unverifiedBlocks (f st0) = unverifiedBlocks st0 ∧
          verifiedBlocks (f st0) = verifiedBlocks st0 ∧
          decidedBlocks (f st0) = decidedBlocks st0) →
  I1 st →
  I1 (f (set_decidedBlocks (cache.Put (ID bw) bw)
           (set_verifiedBlocks (delete (ID bw)) st))).
Proof.
  intros Hfresh Hf Hinv id.
  destruct (Hf (set_decidedBlocks (cache.Put (ID bw) bw)
                  (set_verifiedBlocks (delete (ID bw)) st))) as (HU & HV & HD).
  destruct (decide (id = ID bw)) as [-> | Hne].
  - unfold atMostOne, inUnverified, inVerified. rewrite HU, HV. simpl.
    rewrite Hfresh, lookup_delete_eq. split_and!; by intros [[? ?] [? ?]].
  - apply (atMostOne_mono id st); [..|done].
    + unfold inUnverified. by rewrite HU.
    + unfold inVerified. rewrite HV. simpl. by rewrite lookup_delete_ne.
    + unfold inDecided. rewrite HD. by apply inDecided_Put_other.
Qed.

Lemma I1_exec op st w :
  engineAllows op st → I1 st → I1 (exec op (st, w)).1.
Proof.
  destruct op as [bw ctx | bw ctx | bw ctx]; cbn [exec engineAllows].
  - apply I1_Verify.
  - rewrite Accept_state, acceptBookkeeping_unfold. cbn [fst snd].
    intros Hfresh. by apply (I1_decided bw st (set_lastAcceptedBlock bw)).
  - rewrite Reject_state, rejectBookkeeping_unfold. cbn [fst snd].
    intros Hfresh. by apply (I1_decided bw st (λ st0, st0)).
Qed.

(** C2, amended: from a state in which every identifier is in at most one
    of the three caches, a sequence of [Verify], [Accept] and [Reject] calls
    that keeps to the engine's order (no [Verify] on an identifier found in
    [decidedBlocks], no [Accept] or [Reject] on one found in
    [unverifiedBlocks]) goes only through states in which every identifier
    is in at most one of the three caches. *)
Theorem I1_along_engine_order (ops : list Op) σ :
  I1 σ.1 → followsEngine ops σ → Forall (λ σ', I1 σ'.1) (trace ops σ).
Proof.
  revert σ. induction ops as [|op ops IH]; intros [st w] Hinv Hfollows.
  - by constructor.
  - destruct Hfollows as [Hallowed Hrest]. cbn [trace]. constructor; [done|].
    apply IH; [|done]. destruct (exec op (st, w)) as [st1 w1] eqn:Hexec.
    change st1 with (st1, w1).1. rewrite <- Hexec. by apply I1_exec.
Qed.

End chain_facts.

(** * Further properties of the wrapper methods *)
Section chain_more_facts.
Context `{Externals} {C : Type} `{!cache.Cacher ids_ID BlockWrapper C}.
Implicit Types (bw h : BlockWrapper) (ctx : context_Context) (st : State C)
  (w : World) (σ : Sigma C) (id : ids_ID) (m : Method) (ms : list Method).

Local Ltac unfold_monad :=
  unfold mbind, M_bind, mret, M_ret, call, update; simpl.

(** ** VerifyWithContext: fall-back and errors *)

(** [VerifyWithContext], path by path. *)
Lemma VerifyWithContext_unfold bw ctx blockCtx st w :
  VerifyWithContext bw ctx blockCtx (st, w) =
  match block.asWithVerifyContext (Block bw) with
  | Some withCtx =>
      match block.ShouldVerifyWithContext withCtx ctx w with
      | ((_, Some e), w1) => (Some e, (st, w1))
      | ((true, None), w1) =>
          ((block.VerifyWithContext withCtx ctx blockCtx w1).1,
           (st, (block.VerifyWithContext withCtx ctx blockCtx w1).2))
      | ((false, None), w1) => Verify bw ctx (st, w1)
      end
  | None => Verify bw ctx (st, w)
  end.
Proof.
  unfold VerifyWithContext.
  destruct (block.asWithVerifyContext (Block bw)) as [withCtx|]; [|done].
  unfold_monad.
  destruct (block.ShouldVerifyWithContext withCtx ctx w)
    as [[[] [e|]] w1]; simpl; try done.
  by destruct (block.VerifyWithContext withCtx ctx blockCtx w1).
Qed.

(** X1: when the wrapped block lacks the capability, or has it and its
    probe answers [(false, nil)], [VerifyWithContext] is [Verify] run on the
    VM as the probe (if any) left it: same result, same cache moves. *)
Theorem VerifyWithContext_falls_back_to_Verify bw ctx blockCtx st w w1 :
  (block.asWithVerifyContext (Block bw) = None ∧ w1 = w) ∨
  (∃ withCtx,
     block.asWithVerifyContext (Block bw) = Some withCtx ∧
     block.ShouldVerifyWithContext withCtx ctx w = ((false, None), w1)) →
  VerifyWithContext bw ctx blockCtx (st, w) = Verify bw ctx (st, w1).
Proof.
  rewrite VerifyWithContext_unfold.
  intros [[-> ->] | (withCtx & -> & ->)]; done.
Qed.

(** X2: when the probe of a block with the capability returns an error,
    [VerifyWithContext] returns that error whatever the probe's boolean,
    writes nothing to [State], and calls neither verification: the VM is
    as the probe left it. *)
Theorem VerifyWithContext_probe_error bw ctx blockCtx withCtx st w b e w1 :
  block.asWithVerifyContext (Block bw) = Some withCtx →
  block.ShouldVerifyWithContext withCtx ctx w = ((b, Some e), w1) →
  VerifyWithContext bw ctx blockCtx (st, w) = (Some e, (st, w1)).
Proof.
  intros Hcap Hprobe. rewrite VerifyWithContext_unfold, Hcap, Hprobe.
  by destruct b.
Qed.

(** X3: whenever [VerifyWithContext] returns an error, on whichever path,
    the [State] is exactly what it was before the call. *)
Theorem VerifyWithContext_error_keeps_state bw ctx blockCtx st w e :
  (VerifyWithContext bw ctx blockCtx (st, w)).1 = Some e →
  (VerifyWithContext bw ctx blockCtx (st, w)).2.1 = st.
Proof.
  assert (∀ w0, (Verify bw ctx (st, w0)).1 = Some e →
                (Verify bw ctx (st, w0)).2.1 = st) as HVerify.
  { intros w0. rewrite Verify_unfold.
    by destruct (block.Verify (Block bw) ctx w0) as [[e'|] w']. }
  rewrite VerifyWithContext_unfold.
  destruct (block.asWithVerifyContext (Block bw)) as [withCtx|]; [|by auto].
  destruct (block.ShouldVerifyWithContext withCtx ctx w)
    as [[[] [e'|]] w1]; simpl; auto.
Qed.

(** ** What each method leaves alone *)

(** X4: the probe writes nothing to [State], with or without the
    capability; with it, the probe's answer and its effect on the VM are
    the wrapped block's. *)
Theorem ShouldVerifyWithContext_reads_only bw ctx st w :
  (ShouldVerifyWithContext bw ctx (st, w)).2.1 = st ∧
  ∀ withCtx,
    block.asWithVerifyContext (Block bw) = Some withCtx →
    ShouldVerifyWithContext bw ctx (st, w) =
    ((block.ShouldVerifyWithContext withCtx ctx w).1,
     (st, (block.ShouldVerifyWithContext withCtx ctx w).2)).
Proof.
  unfold ShouldVerifyWithContext.
  destruct (block.asWithVerifyContext (Block bw)) as [withCtx|].
  - rewrite call_spec. split; [done|]. by intros ? [= <-].
  - by split.
Qed.

(** X5: [Verify], [VerifyWithContext] and [ShouldVerifyWithContext] never
    write [decidedBlocks] or [lastAcceptedBlock], whatever the wrapped block
    returns. *)
Theorem verification_keeps_decided_and_tip bw ctx blockCtx st w :
  (decidedBlocks (Verify bw ctx (st, w)).2.1 = decidedBlocks st ∧
   lastAcceptedBlock (Verify bw ctx (st, w)).2.1 = lastAcceptedBlock st) ∧
  (decidedBlocks (VerifyWithContext bw ctx blockCtx (st, w)).2.1 = decidedBlocks st ∧
   lastAcceptedBlock (VerifyWithContext bw ctx blockCtx (st, w)).2.1 =
     lastAcceptedBlock st) ∧
  (decidedBlocks (ShouldVerifyWithContext bw ctx (st, w)).2.1 = decidedBlocks st ∧
   lastAcceptedBlock (ShouldVerifyWithContext bw ctx (st, w)).2.1 =
     lastAcceptedBlock st).
Proof.
  assert (∀ w0, decidedBlocks (Verify bw ctx (st, w0)).2.1 = decidedBlocks st ∧
                lastAcceptedBlock (Verify bw ctx (st, w0)).2.1 =
                  lastAcceptedBlock st) as HVerify.
  { intros w0. rewrite Verify_unfold.
    by destruct (block.Verify (Block bw) ctx w0) as [[e'|] w']. }
  split_and!; try apply HVerify.
  - rewrite VerifyWithContext_unfold.
    destruct (block.asWithVerifyContext (Block bw)) as [withCtx|];
      [|apply HVerify].
    destruct (block.ShouldVerifyWithContext withCtx ctx w)
      as [[[] [e'|]] w1]; simpl; try done; apply HVerify.
  - rewrite VerifyWithContext_unfold.
    destruct (block.asWithVerifyContext (Block bw)) as [withCtx|];
      [|apply HVerify].
    destruct (block.ShouldVerifyWithContext withCtx ctx w)
      as [[[] [e'|]] w1]; simpl; try done; apply HVerify.
  - by rewrite (proj1 (ShouldVerifyWithContext_reads_only bw ctx st w)).
  - by rewrite (proj1 (ShouldVerifyWithContext_reads_only bw ctx st w)).
Qed.

(** X6: [Accept] and [Reject] on a wrapper whose identifier has no entry in
    [verifiedBlocks] (it was never verified, or was decided already) do not
    fail on the missing key: [verifiedBlocks] is left exactly as it was. *)
Theorem decide_absent_keeps_verified bw ctx st w :
  verifiedBlocks st !! ID bw = None →
  verifiedBlocks (Accept bw ctx (st, w)).2.1 = verifiedBlocks st ∧
  verifiedBlocks (Reject bw ctx (st, w)).2.1 = verifiedBlocks st.
Proof.
  intros Habsent.
  rewrite Accept_state, Reject_state, acceptBookkeeping_unfold,
    rejectBookkeeping_unfold. simpl.
  by rewrite delete_id.
Qed.

(** ** One call, any method *)

(** What a call can do to [State]: nothing, the move of a successful
    [Verify], or the move of [Accept] or [Reject]. *)
Lemma invoke_cases m st w :
  let bw := receiver m in
  (invoke m (st, w)).1 = st ∨
  (((∃ ctx, m = Lifecycle (OpVerify bw ctx)) ∨
    (∃ ctx blockCtx, m = MVerifyWithContext bw ctx blockCtx)) ∧
   (invoke m (st, w)).1 = verifiedState bw st) ∨
  ((∃ ctx, m = Lifecycle (OpAccept bw ctx)) ∧
   (invoke m (st, w)).1 = set_lastAcceptedBlock bw (decidedState bw st)) ∨
  ((∃ ctx, m = Lifecycle (OpReject bw ctx)) ∧
   (invoke m (st, w)).1 = decidedState bw st).
Proof.
  assert (∀ bw ctx w0,
            (Verify bw ctx (st, w0)).2.1 = st ∨
            (Verify bw ctx (st, w0)).2.1 = verifiedState bw st) as HVerify.
  { intros bw ctx w0. rewrite Verify_unfold.
    destruct (block.Verify (Block bw) ctx w0) as [[e|] w']; simpl; auto. }
  destruct m as [[bw ctx | bw ctx | bw ctx] | bw ctx blockCtx | bw ctx];
    cbn [invoke exec receiver fst snd].
  - destruct (HVerify bw ctx w) as [-> | ->]; [by left|]. right; left. eauto.
  - right; right; left. split; [eauto|].
    by rewrite Accept_state, acceptBookkeeping_unfold.
  - right; right; right. split; [eauto|].
    by rewrite Reject_state, rejectBookkeeping_unfold.
  - rewrite VerifyWithContext_unfold.
    destruct (block.asWithVerifyContext (Block bw)) as [withCtx|].
    + destruct (block.ShouldVerifyWithContext withCtx ctx w)
        as [[[] [e|]] w1]; simpl; try by left.
      destruct (HVerify bw ctx w1) as [-> | ->]; [by left|].
      right; left. eauto.
    + destruct (HVerify bw ctx w) as [-> | ->]; [by left|].
      right; left. eauto.
  - left. apply ShouldVerifyWithContext_reads_only.
Qed.

(** A property of [State] that every call keeps holds after any sequence. *)
Lemma invokeAll_keeps (P : State C → Prop) :
  (∀ m st w, P st → P (invoke m (st, w)).1) →
  ∀ ms σ, P σ.1 → P (invokeAll ms σ).1.
Proof.
  intros Hstep ms. induction ms as [|m ms IH]; intros [st w] HP; [done|].
  change (invokeAll (m :: ms) (st, w)) with (invokeAll ms (invoke m (st, w))).
  apply IH. by apply Hstep.
Qed.

(** X7: a call leaves the entries of every other identifier alone, in
    [unverifiedBlocks] and in [verifiedBlocks]: only the receiver's own
    identifier can be evicted, inserted or deleted there. *)
Theorem methods_keep_other_identifiers m st w id :
  id ≠ ID (receiver m) →
  cache.found id (unverifiedBlocks (invoke m (st, w)).1) =
    cache.found id (unverifiedBlocks st) ∧
  verifiedBlocks (invoke m (st, w)).1 !! id = verifiedBlocks st !! id.
Proof.
  intros Hne.
  destruct (invoke_cases m st w) as [-> | [[_ ->] | [[_ ->] | [_ ->]]]];
    unfold verifiedState, decidedState, cache.found; simpl.
  - done.
  - by rewrite cache.Get_Evict_ne, lookup_insert_ne.
  - by rewrite lookup_delete_ne.
  - by rewrite lookup_delete_ne.
Qed.

(** X8: no sequence of wrapper methods adds to [unverifiedBlocks]: whatever
    [Get] finds there afterwards, it found before the first call. *)
Theorem unverified_never_gains ms σ id h :
  cache.found id (unverifiedBlocks (invokeAll ms σ).1) = Some h →
  cache.found id (unverifiedBlocks σ.1) = Some h.
Proof.
  revert id h.
  apply (invokeAll_keeps
           (λ st', ∀ id h, cache.found id (unverifiedBlocks st') = Some h →
                           cache.found id (unverifiedBlocks σ.1) = Some h));
    [|done].
  intros m st w IH id h.
  destruct (invoke_cases m st w) as [-> | [[_ ->] | [[_ ->] | [_ ->]]]];
    unfold verifiedState, decidedState; simpl; try apply IH.
  destruct (decide (ID (receiver m) = id)) as [<- | Hne].
  - unfold cache.found. by rewrite cache.Get_Evict_eq.
  - unfold cache.found at 1. rewrite cache.Get_Evict_ne; [apply IH | done].
Qed.

(** X9: if a call leaves [decidedBlocks] with an entry it did not have
    before, the call is [Accept] or [Reject] on the wrapper now stored, under
    that wrapper's identifier. No other method adds to [decidedBlocks]. *)
Theorem decided_only_by_Accept_or_Reject m st w id h :
  cache.found id (decidedBlocks (invoke m (st, w)).1) = Some h →
  cache.found id (decidedBlocks st) ≠ Some h →
  ∃ bw ctx,
    (m = Lifecycle (OpAccept bw ctx) ∨ m = Lifecycle (OpReject bw ctx)) ∧
    id = ID bw ∧ h = bw.
Proof.
  assert (∀ bw,
            cache.found id (cache.Put (ID bw) bw (decidedBlocks st)) = Some h →
            cache.found id (decidedBlocks st) ≠ Some h →
            id = ID bw ∧ h = bw) as HPut.
  { intros bw Hnew Hold. unfold cache.found in *.
    destruct (decide (ID bw = id)) as [<- | Hne].
    - rewrite cache.Get_Put_eq in Hnew. by simplify_eq.
    - destruct (cache.Get_Put_ne (ID bw) id bw (decidedBlocks st) Hne)
        as [Heq | Heq]; rewrite Heq in Hnew; done. }
  destruct (invoke_cases m st w)
    as [-> | [[_ ->] | [[[ctx Hm] ->] | [[ctx Hm] ->]]]];
    unfold verifiedState, decidedState; simpl; try done;
    intros Hnew Hold; destruct (HPut _ Hnew Hold) as [-> ->]; eauto 10.
Qed.

(** X10: across any sequence of wrapper methods, [lastAcceptedBlock] is the
    wrapper of the last [Accept] in the sequence, and is what it was at the
    start when the sequence has no [Accept]. *)
Theorem tip_is_last_Accept ms σ :
  lastAcceptedBlock (invokeAll ms σ).1 =
  match lastAccept ms with
  | Some bw => Some bw
  | None => lastAcceptedBlock σ.1
  end.
Proof.
  revert σ. induction ms as [|m ms IH]; intros [st w]; [done|].
  change (invokeAll (m :: ms) (st, w)) with (invokeAll ms (invoke m (st, w))).
  rewrite IH. cbn [lastAccept]. destruct (lastAccept ms) as [bw|]; [done|].
  destruct (invoke_cases m st w)
    as [Hst | [[[[ctx Hm] | (ctx & blockCtx & Hm)] Hst]
       | [[[ctx Hm] Hst] | [[ctx Hm] Hst]]]];
    rewrite Hst; try (rewrite Hm; by cbn).
  destruct m as [[bw ctx | bw ctx | bw ctx] | bw ctx blockCtx | bw ctx];
    try done.
  revert Hst. cbn [invoke exec fst snd].
  rewrite Accept_state, acceptBookkeeping_unfold. simpl.
  intros Hst. by rewrite <- Hst.
Qed.

(** X11: if every cached wrapper is stored under its own identifier, the
    same holds after any sequence of wrapper methods. *)
Theorem wellKeyed_kept ms σ :
  wellKeyed σ.1 → wellKeyed (invokeAll ms σ).1.
Proof.
  apply (invokeAll_keeps wellKeyed). clear.
  intros m st w Hkeyed id h.
  destruct (invoke_cases m st w) as [-> | [[_ ->] | [[_ ->] | [_ ->]]]];
    [apply Hkeyed | ..]; unfold verifiedState, decidedState, cache.found;
    simpl; set (bw := receiver m).
  - intros [Hu | [Hv | Hd]].
    + destruct (decide (ID bw = id)) as [<- | Hne].
      * by rewrite cache.Get_Evict_eq in Hu.
      * rewrite cache.Get_Evict_ne in Hu by done. apply Hkeyed. by left.
    + destruct (decide (ID bw = id)) as [<- | Hne].
      * rewrite lookup_insert_eq in Hv. by simplify_eq.
      * rewrite lookup_insert_ne in Hv by done. apply Hkeyed. by right; left.
    + apply Hkeyed. by right; right.
  - intros [Hu | [Hv | Hd]].
    + apply Hkeyed. by left.
    + apply lookup_delete_Some in Hv as [_ Hv]. apply Hkeyed. by right; left.
    + destruct (decide (ID bw = id)) as [<- | Hne].
      * rewrite cache.Get_Put_eq in Hd. by simplify_eq.
      * destruct (cache.Get_Put_ne (ID bw) id bw (decidedBlocks st) Hne)
          as [Heq | Heq]; rewrite Heq in Hd; [|done].
        apply Hkeyed. by right; right.
  - intros [Hu | [Hv | Hd]].
    + apply Hkeyed. by left.
    + apply lookup_delete_Some in Hv as [_ Hv]. apply Hkeyed. by right; left.
    + destruct (decide (ID bw = id)) as [<- | Hne].
      * rewrite cache.Get_Put_eq in Hd. by simplify_eq.
      * destruct (cache.Get_Put_ne (ID bw) id bw (decidedBlocks st) Hne)
          as [Heq | Heq]; rewrite Heq in Hd; [|done].
        apply Hkeyed. by right; right.
Qed.

(** X12: if no identifier is both in [unverifiedBlocks] and in
    [verifiedBlocks], the same holds after any sequence of wrapper methods,
    in whatever order they are called. *)
Theorem separated_kept ms σ :
  separated σ.1 → separated (invokeAll ms σ).1.
Proof.
  apply (invokeAll_keeps separated). clear.
  intros m st w Hsep id.
  destruct (invoke_cases m st w) as [-> | [[_ ->] | [[_ ->] | [_ ->]]]];
    [apply Hsep | ..];
    unfold verifiedState, decidedState, inUnverified, inVerified, cache.found;
    simpl; set (bw := receiver m).
  - destruct (decide (ID bw = id)) as [<- | Hne].
    + rewrite cache.Get_Evict_eq. by intros [[? ?] _].
    + rewrite cache.Get_Evict_ne, lookup_insert_ne by done. apply Hsep.
  - intros [Hu [h Hv]]. apply lookup_delete_Some in Hv as [_ Hv].
    apply (Hsep id). split; [done | by exists h].
  - intros [Hu [h Hv]]. apply lookup_delete_Some in Hv as [_ Hv].
    apply (Hsep id). split; [done | by exists h].
Qed.

(** ** Calls in a row *)

(** X13: a successful [Verify] followed by [Accept] or [Reject] leaves the
    identifier in [decidedBlocks] only, wherever it was before: [Get] on
    [unverifiedBlocks] does not find it, [verifiedBlocks] has no entry for
    it, and [decidedBlocks] finds this wrapper. *)
Theorem verify_then_decide_settles bw ctx ctx' st w :
  (block.Verify (Block bw) ctx w).1 = None →
  ∀ op, op = OpAccept bw ctx' ∨ op = OpReject bw ctx' →
  let st' := (run [OpVerify bw ctx; op] (st, w)).1 in
  cache.found (ID bw) (unverifiedBlocks st') = None ∧
  verifiedBlocks st' !! ID bw = None ∧
  cache.found (ID bw) (decidedBlocks st') = Some bw ∧
  atMostOne (ID bw) st'.
Proof.
  intros Hok op Hop st'.
  assert (cache.found (ID bw) (unverifiedBlocks st') = None ∧
          verifiedBlocks st' !! ID bw = None ∧
          cache.found (ID bw) (decidedBlocks st') = Some bw) as (HU & HV & HD).
  { subst st'. unfold run. cbn [foldl flip exec].
    rewrite Verify_unfold.
    destruct (block.Verify (Block bw) ctx w) as [r w1]. simpl in Hok. subst r.
    cbn [snd].
    destruct Hop as [-> | ->]; cbn [exec];
      rewrite ?Accept_state, ?Reject_state, ?acceptBookkeeping_unfold,
        ?rejectBookkeeping_unfold; unfold cache.found; simpl;
      by rewrite cache.Get_Evict_eq, lookup_delete_eq, cache.Get_Put_eq. }
  split_and!; try done.
  unfold atMostOne, inUnverified, inVerified. rewrite HU, HV.
  split_and!; by intros [[? ?] [? ?]].
Qed.

(** X14: verifying a wrapper again right after a successful [Verify], when
    the wrapped block's [Verify] succeeds again, changes nothing one can
    observe: [verifiedBlocks], [decidedBlocks] and [lastAcceptedBlock] are
    the same and [Get] on [unverifiedBlocks] answers the same for every
    identifier. *)
Theorem Verify_again_changes_nothing bw ctx ctx' st w :
  (block.Verify (Block bw) ctx w).1 = None →
  (block.Verify (Block bw) ctx' (block.Verify (Block bw) ctx w).2).1 = None →
  let st1 := (run [OpVerify bw ctx] (st, w)).1 in
  let st2 := (run [OpVerify bw ctx; OpVerify bw ctx'] (st, w)).1 in
  verifiedBlocks st2 = verifiedBlocks st1 ∧
  decidedBlocks st2 = decidedBlocks st1 ∧
  lastAcceptedBlock st2 = lastAcceptedBlock st1 ∧
  ∀ id, cache.found id (unverifiedBlocks st2) =
        cache.found id (unverifiedBlocks st1).
Proof.
  intros Hok Hok' st1 st2. subst st1 st2. unfold run.
  cbn [foldl flip exec]. rewrite (Verify_unfold bw ctx st w).
  destruct (block.Verify (Block bw) ctx w) as [r w1]. simpl in Hok, Hok'.
  subst r. cbn [snd fst]. rewrite Verify_unfold.
  destruct (block.Verify (Block bw) ctx' w1) as [r w2]. simpl in Hok'.
  subst r. simpl. split_and!; try done.
  - apply insert_insert_eq.
  - intros id. unfold cache.found.
    destruct (decide (ID bw = id)) as [<- | Hne].
    + by rewrite !cache.Get_Evict_eq.
    + by rewrite cache.Get_Evict_ne.
Qed.

End chain_more_facts.

(** * The methods on concrete blocks *)
Section evaluation.
Import demo.

Lemma fresh_lookup (id : N) :
  cache.found id (cache.lru_new 2 : Cache) = None.
Proof.
  unfold cache.found. simpl. unfold cache.lru_Get. simpl.
  by rewrite lookup_empty.
Qed.

Lemma I1_fresh : I1 fresh.
Proof.
  intros id. unfold atMostOne, inUnverified, inVerified, inDecided. simpl.
  rewrite fresh_lookup, lookup_empty. split_and!; by intros [[? ?] [? ?]].
Qed.

Lemma I1_parsed (bw : BlockWrapper) : I1 (parsed bw).
Proof.
  intros id. unfold atMostOne, inUnverified, inVerified, inDecided. simpl.
  rewrite fresh_lookup, lookup_empty. split_and!; by intros [[? ?] [? ?]].
Qed.

(** C1: a block with the capability whose probe answers true and whose
    context-aware verification succeeds. [VerifyWithContext] returns nil
    and the [State] is what it was: the identifier is still found in
    [unverifiedBlocks] and has no entry in [verifiedBlocks]. [Verify] on
    the same wrapper and state does the move. *)
Lemma VerifyWithContext_success_skips_bookkeeping :
  let st := parsed withContext in
  VerifyWithContext withContext () () (st, 0) = (None, (st, 2)) ∧
  cache.found 7%N (unverifiedBlocks st) = Some withContext ∧
  verifiedBlocks st !! 7%N = None ∧
  (Verify withContext () (st, 0)).1 = None ∧
  cache.found 7%N (unverifiedBlocks (Verify withContext () (st, 0)).2.1) = None ∧
  verifiedBlocks (Verify withContext () (st, 0)).2.1 !! 7%N = Some withContext.
Proof. vm_compute. by split_and!. Qed.

(** C2 as stated fails. From the empty state, verifying, accepting and
    verifying again leaves the identifier in both [verifiedBlocks] and
    [decidedBlocks]; and accepting a block that was parsed but never
    verified leaves it in both [unverifiedBlocks] and [decidedBlocks]. *)
Lemma I1_broken_outside_engine_order :
  (I1 fresh ∧
   ¬ atMostOne 7%N
       (run [OpVerify valid (); OpAccept valid (); OpVerify valid ()] (fresh, 0)).1) ∧
  (I1 (parsed valid) ∧
   ¬ atMostOne 7%N (run [OpAccept valid ()] (parsed valid, 0)).1).
Proof.
  split; (split; [apply I1_fresh || apply I1_parsed |]).
  - intros (_ & _ & Hvd). apply Hvd. split; eexists; vm_compute; reflexivity.
  - intros (_ & Hud & _). apply Hud. split; eexists; vm_compute; reflexivity.
Qed.

Lemma I1_along_engine_order_witness :
  Forall (λ σ' : Sigma Cache, I1 σ'.1)
    (trace [OpVerify valid (); OpAccept valid ()] (parsed valid, 0)).
Proof.
  apply (I1_along_engine_order
           [OpVerify valid (); OpAccept valid ()] (parsed valid, 0)).
  - apply I1_parsed.
  - cbn [followsEngine]. split_and!; [vm_compute; reflexivity .. | exact I].
Defined.

Lemma decide_error_no_rollback_witness :
  let σ := (parsed valid, 0) in
  ((Accept undecidable () σ).1 = Some "disk full" ∧
   verifiedBlocks (Accept undecidable () σ).2.1 !! 7%N = None ∧
   cache.found 7%N (decidedBlocks (Accept undecidable () σ).2.1) = Some undecidable ∧
   lastAcceptedBlock (Accept undecidable () σ).2.1 = Some undecidable) ∧
  ((Reject undecidable () σ).1 = Some "disk full" ∧
   verifiedBlocks (Reject undecidable () σ).2.1 !! 7%N = None ∧
   cache.found 7%N (decidedBlocks (Reject undecidable () σ).2.1) = Some undecidable).
Proof.
  intros σ.
  destruct (decide_error_no_rollback undecidable () σ.1 σ.2 "disk full")
    as [Haccept Hreject].
  split; [apply Haccept | apply Hreject]; reflexivity.
Defined.

Lemma Verify_error_keeps_state_witness :
  Verify invalid () (parsed invalid, 0) =
  (Some "invalid block", (parsed invalid, 1)).
Proof.
  exact (Verify_error_keeps_state invalid () (parsed invalid) 0
           "invalid block" eq_refl).
Defined.

Lemma Verify_success_moves_to_verified_witness :
  let σ := (parsed valid, 0) in
  (Verify valid () σ).1 = None ∧
  cache.found 7%N (unverifiedBlocks (Verify valid () σ).2.1) = None ∧
  verifiedBlocks (Verify valid () σ).2.1 !! 7%N = Some valid.
Proof.
  exact (Verify_success_moves_to_verified valid () (parsed valid) 0 eq_refl).
Defined.

Lemma verified_only_after_Verify_witness :
  let σ' := invoke (Lifecycle (OpVerify valid ()))
              (invokeAll [MShouldVerifyWithContext withContext ()]
                 (parsed valid, 0)) in
  ∃ bw ctx,
    (Lifecycle (OpVerify valid ()) = Lifecycle (OpVerify bw ctx) ∨
     ∃ blockCtx,
       Lifecycle (OpVerify valid ()) = MVerifyWithContext bw ctx blockCtx) ∧
    7%N = ID bw ∧ valid = bw ∧
    ∃ w0, block.Verify (Block bw) ctx w0 = (None, σ'.2).
Proof.
  apply (verified_only_after_Verify
           [MShouldVerifyWithContext withContext ()]
           (Lifecycle (OpVerify valid ())) (parsed valid, 0) 7%N valid).
  - vm_compute. reflexivity.
  - vm_compute. discriminate.
Defined.

Lemma ShouldVerifyWithContext_without_capability_witness :
  ShouldVerifyWithContext valid () (parsed valid, 0) =
  ((false, None), (parsed valid, 0)).
Proof.
  exact (ShouldVerifyWithContext_without_capability valid ()
           (parsed valid, 0) eq_refl).
Defined.

Lemma decide_keeps_unverified_witness :
  let st := parsed valid in
  (inUnverified 7%N (Accept valid () (st, 0)).2.1 ∧
   inDecided 7%N (Accept valid () (st, 0)).2.1) ∧
  (inUnverified 7%N (Reject valid () (st, 0)).2.1 ∧
   inDecided 7%N (Reject valid () (st, 0)).2.1).
Proof.
  intros st.
  apply (proj2 (decide_keeps_unverified valid () st 0)).
  eexists. vm_compute. reflexivity.
Defined.

Lemma wellKeyed_fresh : wellKeyed fresh.
Proof.
  intros id h. simpl. rewrite fresh_lookup, lookup_empty.
  by intros [? | [? | ?]].
Qed.

Lemma separated_fresh : separated fresh.
Proof.
  intros id [_ [h Hv]]. simpl in Hv. by rewrite lookup_empty in Hv.
Qed.

Lemma VerifyWithContext_falls_back_to_Verify_witness :
  VerifyWithContext declining () () (parsed declining, 0) =
  Verify declining () (parsed declining, 1).
Proof.
  apply (VerifyWithContext_falls_back_to_Verify declining () ()
           (parsed declining) 0 1).
  right. eexists. split; reflexivity.
Defined.

Lemma VerifyWithContext_probe_error_witness :
  VerifyWithContext brokenProbe () () (parsed brokenProbe, 0) =
  (Some "no context", (parsed brokenProbe, 1)).
Proof.
  exact (VerifyWithContext_probe_error brokenProbe () () _
           (parsed brokenProbe) 0 true "no context" 1 eq_refl eq_refl).
Defined.

Lemma VerifyWithContext_error_keeps_state_witness :
  (VerifyWithContext failsWithContext () () (parsed failsWithContext, 0)).2.1 =
  parsed failsWithContext.
Proof.
  exact (VerifyWithContext_error_keeps_state failsWithContext () ()
           (parsed failsWithContext) 0 "bad context" eq_refl).
Defined.

Lemma ShouldVerifyWithContext_reads_only_witness :
  ShouldVerifyWithContext withContext () (parsed withContext, 0) =
  ((true, None), (parsed withContext, 1)).
Proof.
  exact (proj2 (ShouldVerifyWithContext_reads_only withContext ()
                  (parsed withContext) 0) _ eq_refl).
Defined.

Lemma decide_absent_keeps_verified_witness :
  let st := (run [OpVerify valid ()] (fresh, 0)).1 in
  verifiedBlocks (Accept other () (st, 1)).2.1 = verifiedBlocks st ∧
  verifiedBlocks (Reject other () (st, 1)).2.1 = verifiedBlocks st.
Proof.
  intros st. apply (decide_absent_keeps_verified other () st 1).
  vm_compute. reflexivity.
Defined.

Lemma methods_keep_other_identifiers_witness :
  let st := (run [OpVerify other ()] (parsed valid, 0)).1 in
  cache.found 9%N (unverifiedBlocks (invoke (Lifecycle (OpVerify valid ())) (st, 1)).1) =
    cache.found 9%N (unverifiedBlocks st) ∧
  verifiedBlocks (invoke (Lifecycle (OpVerify valid ())) (st, 1)).1 !! 9%N =
    verifiedBlocks st !! 9%N.
Proof.
  intros st.
  apply (methods_keep_other_identifiers (Lifecycle (OpVerify valid ())) st 1 9%N).
  vm_compute. discriminate.
Defined.

Lemma unverified_never_gains_witness :
  cache.found 9%N (unverifiedBlocks (parsed other)) = Some other.
Proof.
  apply (unverified_never_gains
           [Lifecycle (OpVerify valid ()); Lifecycle (OpAccept valid ())]
           (parsed other, 0) 9%N other).
  vm_compute. reflexivity.
Defined.

Lemma decided_only_by_Accept_or_Reject_witness :
  ∃ bw ctx,
    (Lifecycle (OpReject valid ()) = Lifecycle (OpAccept bw ctx) ∨
     Lifecycle (OpReject valid ()) = Lifecycle (OpReject bw ctx)) ∧
    7%N = ID bw ∧ valid = bw.
Proof.
  apply (decided_only_by_Accept_or_Reject
           (Lifecycle (OpReject valid ())) fresh 0 7%N valid).
  - vm_compute. reflexivity.
  - vm_compute. discriminate.
Defined.

Lemma wellKeyed_kept_witness :
  wellKeyed
    (invokeAll [Lifecycle (OpVerify valid ()); MVerifyWithContext other () ();
                Lifecycle (OpAccept valid ())] (fresh, 0)).1.
Proof.
  apply (wellKeyed_kept
           [Lifecycle (OpVerify valid ()); MVerifyWithContext other () ();
            Lifecycle (OpAccept valid ())] (fresh, 0)).
  apply wellKeyed_fresh.
Defined.

Lemma separated_kept_witness :
  separated
    (invokeAll [Lifecycle (OpAccept valid ()); Lifecycle (OpVerify valid ());
                Lifecycle (OpVerify valid ())] (fresh, 0)).1.
Proof.
  apply (separated_kept
           [Lifecycle (OpAccept valid ()); Lifecycle (OpVerify valid ());
            Lifecycle (OpVerify valid ())] (fresh, 0)).
  apply separated_fresh.
Defined.

Lemma verify_then_decide_settles_witness :
  let st' := (run [OpVerify valid (); OpAccept valid ()] (parsed valid, 0)).1 in
  cache.found 7%N (unverifiedBlocks st') = None ∧
  verifiedBlocks st' !! 7%N = None ∧
  cache.found 7%N (decidedBlocks st') = Some valid ∧
  atMostOne 7%N st'.
Proof.
  apply (verify_then_decide_settles valid () () (parsed valid) 0 eq_refl
           (OpAccept valid ())).
  left. reflexivity.
Defined.

Lemma Verify_again_changes_nothing_witness :
  let st1 := (run [OpVerify valid ()] (parsed valid, 0)).1 in
  let st2 := (run [OpVerify valid (); OpVerify valid ()] (parsed valid, 0)).1 in
  verifiedBlocks st2 = verifiedBlocks st1 ∧
  decidedBlocks st2 = decidedBlocks st1 ∧
  lastAcceptedBlock st2 = lastAcceptedBlock st1 ∧
  ∀ id, cache.found id (unverifiedBlocks st2) =
        cache.found id (unverifiedBlocks st1).
Proof.
  exact (Verify_again_changes_nothing valid () () (parsed valid) 0
           eq_refl eq_refl).
Defined.

End evaluation.
